(** * pets: the kind catalogue, the context mixin and the pet record rules

    Shallow embedding of [pets/common/views.py] and of the behaviour that
    [pets/meupet/tests.py] exercises.

    - [Orm]    : the rows of the [Kind] table and the lazy query sets that
                 Django's manager hands out, with the identity of each
                 query-set object made explicit by an allocation counter.
    - [Common] : [get_kind_list], [MeuPetEspecieMixin.get_context_data]
                 and [not_found], translated from [common/views.py].
    - [Meupet] : the pet records, their manager queries and the edit and
                 registration flows.  [meupet/models.py] and
                 [meupet/views.py] are not part of the sources at hand, so
                 these definitions follow the written specification and are
                 checked against the scenarios of [meupet/tests.py]. *)

From stdpp Require Import base tactics option list strings gmap fin_maps
sorting pretty.

Local Open Scope string_scope.

(** ** The ORM fragment used by [common/views.py] *)

Module Orm.

(** Modelled from the spec: a row of [meupet.models.Kind], of which only
    the uses are at hand: a unique identifier and the display name [kind]. *)
Record Kind : Type := mkKind { kind_id : nat; kind : string }.

Global Instance Kind_eq_dec : EqDecision Kind.
Proof. solve_decision. Defined.

(** The table, in the order the rows were inserted. *)
Abbreviation Table := (list Kind).

(** Columns a query can be ordered by. *)
Inductive Field : Type := F_id | F_kind.

(** [field_le f] is the ascending order of column [f]; names are compared
    byte by byte, as a binary collation does. *)
Definition field_le (f : Field) (a b : Kind) : Prop :=
  match f with
  | F_id => (kind_id a ≤ kind_id b)%nat
  | F_kind => String.le (kind a) (kind b)
  end.

Global Instance field_le_dec f : RelDecision (field_le f).
Proof. intros a b. destruct f; simpl; apply _. Defined.

(** A query set is an object of its own (it has an identity, [qs_oid])
    that describes a query; no row is read before it is iterated. *)
Record QuerySet : Type := mkQuerySet {
  qs_oid : nat;
  qs_order_by : option Field
}.

(** Computations that create objects thread the next free identity. *)
Definition Alloc (A : Type) : Type := nat → A * nat.

Definition alloc_ret {A} (x : A) : Alloc A := λ n, (x, n).
Definition alloc_bind {A B} (m : Alloc A) (k : A → Alloc B) : Alloc B :=
  λ n, let '(x, n') := m n in k x n'.
Definition fresh : Alloc nat := λ n, (n, S n).

Global Instance alloc_mret : MRet Alloc := @alloc_ret.
Global Instance alloc_mbind : MBind Alloc := λ A B k m, alloc_bind m k.

(** [Kind.objects.all()]: a new, unordered query set. *)
Definition objects_all : Alloc QuerySet :=
  o ← fresh; alloc_ret (mkQuerySet o None).

(** [qs.order_by(f)]: a clone of [qs] with its ordering replaced. *)
Definition order_by (f : Field) (qs : QuerySet) : Alloc QuerySet :=
  o ← fresh; alloc_ret (mkQuerySet o (Some f)).

(** Iterating a query set against the table. *)
Definition rows (db : Table) (qs : QuerySet) : list Kind :=
  match qs_order_by qs with
  | None => db
  | Some f => merge_sort (field_le f) db
  end.

End Orm.

(** ** [common/views.py] *)

Module Common.
Import Orm.

(** Values a render context can hold. *)
Inductive Value : Type :=
  | VStr (s : string)
  | VView (name : string)
  | VQuerySet (q : QuerySet).

Abbreviation Context := (gmap string Value).

(** [def get_kind_list(): return models.Kind.objects.all().order_by('kind')] *)
Definition get_kind_list : Alloc QuerySet :=
  qs ← objects_all; order_by F_kind qs.

Section Mixin.
(** The next [get_context_data] in the method resolution order; the
    mixin is composed with arbitrary views, so it is left open. *)
Variable super_get_context_data : Context → Alloc Context.

(** [MeuPetEspecieMixin.get_context_data] *)
Definition get_context_data (kwargs : Context) : Alloc Context :=
  context ← super_get_context_data kwargs;
  kind_lost ← get_kind_list;
  let context := <["kind_lost" := VQuerySet kind_lost]> context in
  kind_adoption ← get_kind_list;
  let context := <["kind_adoption" := VQuerySet kind_adoption]> context in
  alloc_ret context.
End Mixin.

(** Django's own [ContextMixin.get_context_data]: the keyword arguments,
    with the view under ["view"] unless the caller supplied one. *)
Definition ContextMixin_get_context_data (self : string)
    (kwargs : Context) : Alloc Context :=
  alloc_ret (match kwargs !! "view" with
             | Some _ => kwargs
             | None => <["view" := VView self]> kwargs
             end).

(** Requests and responses, as far as [not_found] needs them. *)
Record HttpRequest : Type := mkRequest {
  req_method : string;
  req_path : string
}.

Record HttpResponse : Type := mkResponse {
  content : string;
  status_code : nat
}.

Section Render.
(** The template engine: template name, context (if any) and request
    to the rendered text. *)
Variable render_to_string : string → option Context → HttpRequest → string.

(** [django.shortcuts.render(request, template_name, context=None,
    status=None)] *)
Definition render (request : HttpRequest) (template_name : string)
    (context : option Context) (status : option nat) : HttpResponse :=
  {| content := render_to_string template_name context request;
     status_code := default 200 status |}.

(** [def not_found(request): return render(request, 'staticpages/404.html')] *)
Definition not_found (request : HttpRequest) : HttpResponse :=
  render request "staticpages/404.html" None None.
End Render.

End Common.

(** ** Pet records ([meupet]) *)

Module Meupet.
Import Orm.

(** Modelled from the spec: the [status] enumeration of the pet model
    ([meupet/models.py] is not among the sources). *)
Inductive Status : Type := MISSING | FOUND | FOR_ADOPTION | ADOPTED.

Global Instance Status_eq_dec : EqDecision Status.
Proof. solve_decision. Defined.

(** Modelled from the spec: the user account ([users/models.py] is not
    among the sources); [create_user] leaves the profile unconfirmed, as
    [test_should_redirect_if_not_confirmed] shows. *)
Record OwnerProfile : Type := mkOwner {
  user_id : nat;
  username : string;
  is_information_confirmed : bool;
  facebook : option string
}.

(** Modelled from the spec: the pet record ([meupet/models.py] is not
    among the sources).  [owner] and [pet_kind] are references: they hold
    the identifier of the user and of the kind. *)
Record Pet : Type := mkPet {
  pet_id : nat;
  name : string;
  description : string;
  profile_picture : string;
  owner : nat;
  pet_kind : nat;
  status : Status
}.

Global Instance Pet_eq_dec : EqDecision Pet.
Proof. solve_decision. Defined.

(** Modelled from the spec: the persistence layer, as three tables, each
    in creation order. *)
Record Store : Type := mkStore {
  users : list OwnerProfile;
  kinds : list Kind;
  pets : list Pet
}.

Definition empty_store : Store := mkStore [] [] [].

(** Primary keys count up from 1 and no row is ever deleted. *)
Definition next_id {A} (table : list A) : nat := S (length table).

(** [OwnerProfile.objects.create_user(username=..., password=...)] in
    [setUp]; the password plays no part here. *)
Definition create_user (uname : string) (st : Store) : OwnerProfile * Store :=
  let u := mkOwner (next_id (users st)) uname false None in
  (u, mkStore (users st ++ [u]) (kinds st) (pets st)).

(** [user.is_information_confirmed = True; user.save()] *)
Definition confirm_information (uid : nat) (st : Store) : Store :=
  mkStore
    ((λ u, if decide (user_id u = uid)
           then mkOwner (user_id u) (username u) true (facebook u)
           else u) <$> users st)
    (kinds st) (pets st).

(** [Kind.objects.get_or_create(kind=name)[0]] *)
Definition get_or_create (kname : string) (st : Store) : Kind * Store :=
  match List.find (λ k, bool_decide (kind k = kname)) (kinds st) with
  | Some k => (k, st)
  | None =>
      let k := mkKind (next_id (kinds st)) kname in
      (k, mkStore (users st) (kinds st ++ [k]) (pets st))
  end.

(** Modelled from the spec: [create(name, description, image, owner, kind,
    status=MISSING)], the manager's [Pet.objects.create].  The check of the
    owner's confirmation is the calling flow's, not this operation's. *)
Definition create (nm descr image : string) (own : OwnerProfile) (k : Kind)
    (st_arg : option Status) (st : Store) : Pet * Store :=
  let p := mkPet (next_id (pets st)) nm descr image (user_id own) (kind_id k)
                 (default MISSING st_arg) in
  (p, mkStore (users st) (kinds st) (pets st ++ [p])).

(** [MeuPetTest.create_pet(kind, name='Pet', status=Pet.MISSING)];
    [None] when there is no user to own the pet. *)
Definition create_pet (kname : string) (nm : option string)
    (st_arg : option Status) (st : Store) : option (Pet * Store) :=
  let image := "test.png" in
  user ← head (users st);
  let '(k, st1) := get_or_create kname st in
  Some (create ("Testing " +:+ default "Pet" nm) "Bla" image user k
               (Some (default MISSING st_arg)) st1).

(** Modelled from the spec: the record a pet identifier resolves to. *)
Definition get_pet (st : Store) (petId : nat) : option Pet :=
  List.find (λ p, bool_decide (pet_id p = petId)) (pets st).

(** Modelled from the spec: the fields an edit supplies; the image is a new
    upload or the existing reference sent back. *)
Inductive ImageInput : Type :=
  | NewUpload (file : string)
  | ExistingReference (url : string).

(** Modelled from the spec: name, description, kind and image, as an edit
    supplies them. *)
Record EditFields : Type := mkFields {
  f_name : string;
  f_description : string;
  f_kind : nat;
  f_image : ImageInput
}.

(** Modelled from the spec: an edit replaces name, description and kind,
    and the image unless the existing reference was sent back; owner and
    status are not among the fields. *)
Definition apply_fields (f : EditFields) (p : Pet) : Pet :=
  mkPet (pet_id p) (f_name f) (f_description f)
        (match f_image f with
         | NewUpload file => file
         | ExistingReference _ => profile_picture p
         end)
        (owner p) (f_kind f) (status p).

(** Modelled from the spec: the ways an edit fails. *)
Inductive EditError : Type := PetNotFound | AuthorizationError.

(** Modelled from the spec: [edit(petId, requester, fields)] succeeds only
    for the owner and then updates name, description, kind and image. *)
Definition edit (petId : nat) (requester : OwnerProfile) (f : EditFields)
    (st : Store) : EditError + Store :=
  match get_pet st petId with
  | None => inl PetNotFound
  | Some p =>
      if decide (user_id requester = owner p)
      then inr (mkStore (users st) (kinds st)
                  ((λ q, if decide (pet_id q = petId)
                         then apply_fields f q else q) <$> pets st))
      else inl AuthorizationError
  end.

(** Modelled from the spec: [getLostOrFound(kindId)], the manager's
    [Pet.objects.get_lost_or_found] ([meupet/models.py] is not among the
    sources): the records of that kind with status MISSING or FOUND, in
    creation order. *)
Definition get_lost_or_found (kindId : nat) (st : Store) : list Pet :=
  filter (λ p, pet_kind p = kindId ∧ status p ∈ [MISSING; FOUND]) (pets st).

(** Modelled from the spec: [getForAdoptionOrAdopted(kindId)], the
    manager's [Pet.objects.get_for_adoption_adopted]: the records of that
    kind with status FOR_ADOPTION or ADOPTED. *)
Definition get_for_adoption_adopted (kindId : nat) (st : Store) : list Pet :=
  filter (λ p, pet_kind p = kindId ∧ status p ∈ [FOR_ADOPTION; ADOPTED])
         (pets st).

(** Modelled from the spec: [listByKind(kindId)], [Pet.objects.filter(kind=...)]
    in the tests: the records of that kind, whatever their status. *)
Definition list_by_kind (kindId : nat) (st : Store) : list Pet :=
  filter (λ p, pet_kind p = kindId) (pets st).

(** A history of the two mutating operations, replayed from a store. *)
Inductive Op : Type :=
  | OpCreate (nm descr image : string) (own : OwnerProfile) (k : Kind)
             (st_arg : option Status)
  | OpEdit (petId : nat) (requester : OwnerProfile) (f : EditFields).

Definition apply_op (st : Store) (op : Op) : Store :=
  match op with
  | OpCreate nm descr image own k st_arg =>
      (create nm descr image own k st_arg st).2
  | OpEdit petId requester f =>
      match edit petId requester f st with
      | inr st' => st'
      | inl _ => st
      end
  end.

Definition run (ops : list Op) (st : Store) : Store := foldl apply_op st ops.


(** *** The pages *)

Abbreviation FormData := (gmap string string).

(** Modelled from the spec: what a page answers with: a redirect, a
    rendered template with the values its form shows, or the not-found
    page. *)
Inductive Response : Type :=
  | HttpRedirect (location : string)
  | TemplateResponse (template_name : string) (form : FormData)
  | Http404.

(** Modelled from the spec: the detail page of a pet, [/pet/{id}/]. *)
Definition detail_url (petId : nat) : string :=
  "/pet/" +:+ pretty petId +:+ "/".

(** Modelled from the spec: the profile completion page. *)
Definition profile_edit_url : string := "/user/profile/edit/".

(** The values the edit form is loaded with. *)
Definition pet_form_data (p : Pet) : FormData :=
  {[ "name" := name p; "description" := description p;
     "kind" := pretty (pet_kind p);
     "profile_picture" := profile_picture p ]}.

Inductive EditRequest : Type :=
  | EditGet
  | EditPost (f : EditFields).

(** Modelled from the spec: the page at [/pet/{id}/edit/]
    ([meupet/views.py] is not among the sources).  The owner gets the form
    on GET and the detail page after a POST; for anyone else the
    authorization failure is turned into a redirect to the detail page. *)
Definition edit_view (petId : nat) (requester : OwnerProfile)
    (rq : EditRequest) (st : Store) : Response * Store :=
  match get_pet st petId with
  | None => (Http404, st)
  | Some p =>
      match rq with
      | EditGet =>
          if decide (user_id requester = owner p)
          then (TemplateResponse "meupet/edit.html" (pet_form_data p), st)
          else (HttpRedirect (detail_url petId), st)
      | EditPost f =>
          match edit petId requester f st with
          | inr st' => (HttpRedirect (detail_url petId), st')
          | inl AuthorizationError => (HttpRedirect (detail_url petId), st)
          | inl PetNotFound => (Http404, st)
          end
      end
  end.

(** The two registration pages. *)
Inductive RegistrationPage : Type := LostPage | AdoptionPage.

Definition page_path (pg : RegistrationPage) : string :=
  match pg with
  | LostPage => "/pet/lost/"
  | AdoptionPage => "/pet/adoption/"
  end.

Definition resolve_registration (path : string) : option RegistrationPage :=
  if decide (path = "/pet/lost/") then Some LostPage
  else if decide (path = "/pet/adoption/") then Some AdoptionPage
  else None.

Inductive RegisterRequest : Type :=
  | RegisterGet
  | RegisterPost (data : FormData).

(** What a valid registration form yields. *)
Record NewPet : Type := mkNewPet {
  n_name : string;
  n_description : string;
  n_image : string;
  n_kind : string;
  n_status : option Status
}.

Section Registration.
(** The form's validation: [None] when a required field is missing or
    invalid.  The form class is not among the sources and the spec does
    not list the required fields, so the validation is left open. *)
Variable clean : FormData → option NewPet.

(** Modelled from the spec: the pages at [/pet/lost/] and [/pet/adoption/]
    ([meupet/views.py] is not among the sources).  Reaching the form needs
    a confirmed profile; an invalid submission gets the form back with the
    submitted values ([test_incorrect_form_submission_reload_page_with_values]
    posts as the unconfirmed [admin]); a valid one is registered only for a
    confirmed owner. *)
Definition register_view (user : OwnerProfile) (rq : RegisterRequest)
    (st : Store) : Response * Store :=
  match rq with
  | RegisterGet =>
      if is_information_confirmed user
      then (TemplateResponse "meupet/register_pet.html" ∅, st)
      else (HttpRedirect profile_edit_url, st)
  | RegisterPost data =>
      match clean data with
      | None => (TemplateResponse "meupet/register_pet.html" data, st)
      | Some np =>
          if is_information_confirmed user
          then
            let '(k, st1) := get_or_create (n_kind np) st in
            let '(p, st2) := create (n_name np) (n_description np)
                               (n_image np) user k (n_status np) st1 in
            (HttpRedirect (detail_url (pet_id p)), st2)
          else (HttpRedirect profile_edit_url, st)
      end
  end.

(** Modelled from the spec: the routing table sends [/pet/lost/] and
    [/pet/adoption/] to the registration page. *)
Definition serve_registration (path : string) (user : OwnerProfile)
    (rq : RegisterRequest) (st : Store) : Response * Store :=
  match resolve_registration path with
  | Some _ => register_view user rq st
  | None => (Http404, st)
  end.
End Registration.

(** A validation that asks for name, description, kind and picture. *)
Definition required_fields_clean (data : FormData) : option NewPet :=
  nm ← data !! "name";
  descr ← data !! "description";
  k ← data !! "kind";
  image ← data !! "profile_picture";
  Some (mkNewPet nm descr image k None).

(** *** The fixtures of [MeuPetTest] *)

(** [setUp]: one user, [admin]. *)
Definition setUp : Store := (create_user "admin" empty_store).2.

(** A further [self.create_pet(...)] in a test body. *)
Definition and_create_pet (kname : string) (nm : option string)
    (st_arg : option Status) (st : option Store) : option Store :=
  s ← st; snd <$> create_pet kname nm st_arg s.

(** The arguments of one [self.create_pet(kind, name, status)] call; the
    optional ones are [None] when the call leaves them out. *)
Record PetCall : Type := mkCall {
  c_kind : string;
  c_name : option string;
  c_status : option Status
}.

(** The [create_pet] calls of a test body, run in order. *)
Definition create_pets (calls : list PetCall) (st : Store) : option Store :=
  foldl (λ acc c, and_create_pet (c_kind c) (c_name c) (c_status c) acc)
        (Some st) calls.

(** A store as the primary keys leave it when rows are only ever added:
    some user exists, kinds and pets are numbered 1, 2, ... in creation
    order, and no two kinds share a display name. *)
Definition well_formed (st : Store) : Prop :=
  users st ≠ []
  ∧ kind_id <$> kinds st = seq 1 (length (kinds st))
  ∧ NoDup (kind <$> kinds st)
  ∧ pet_id <$> pets st = seq 1 (length (pets st)).

End Meupet.

(** * Properties of [common/views.py] *)

Module CommonSpec.
Import Orm Common.

Global Instance field_le_kind_trans : Transitive (field_le F_kind).
Proof. intros a b c. unfold field_le. apply transitivity. Qed.

Global Instance field_le_kind_total : Total (field_le F_kind).
Proof. intros a b. unfold field_le. apply (total String.le). Qed.

(** [get_kind_list] always hands out an object created by the call, and
    the query it describes does not depend on when it was created. *)
Lemma get_kind_list_run (n : nat) :
  get_kind_list n = (mkQuerySet (S n) (Some F_kind), S (S n)).
Proof. reflexivity. Qed.

Lemma rows_get_kind_list (db : Table) (n : nat) :
  rows db (get_kind_list n).1 = merge_sort (field_le F_kind) db.
Proof. reflexivity. Qed.

Lemma get_context_data_run super kwargs n :
  get_context_data super kwargs n =
    let '(base, n1) := super kwargs n in
    (<["kind_adoption" := VQuerySet (mkQuerySet (S (S (S n1))) (Some F_kind))]>
       (<["kind_lost" := VQuerySet (mkQuerySet (S n1) (Some F_kind))]> base),
     S (S (S (S n1)))).
Proof.
  unfold get_context_data, mbind, alloc_mbind, alloc_bind.
  destruct (super kwargs n) as [base n1]. reflexivity.
Qed.

(** C4: whatever the [Kind] table holds, iterating the result of
    [get_kind_list] yields all of its rows (a permutation of the table, so
    nothing is dropped or paged, and nothing for an empty table), in
    ascending order of the display name. *)
Theorem get_kind_list_all_sorted (db : Table) (n : nat) :
  let listing := rows db (get_kind_list n).1 in
  listing ≡ₚ db
  ∧ length listing = length db
  ∧ StronglySorted (λ a b, String.le (kind a) (kind b)) listing
  ∧ rows [] (get_kind_list n).1 = [].
Proof.
  intros listing. subst listing. rewrite !rows_get_kind_list.
  pose proof (merge_sort_Permutation (field_le F_kind) db) as Hperm.
  split; [done|]. split; [by rewrite Hperm|]. split; [|done].
  apply (StronglySorted_merge_sort (field_le F_kind)).
Qed.

(** The sidebar scenario of the tests: Goat is registered before Cat and
    the listing shows Cat first. *)
Example get_kind_list_goat_cat :
  rows [mkKind 1 "Goat"; mkKind 2 "Cat"] (get_kind_list 0).1
  = [mkKind 2 "Cat"; mkKind 1 "Goat"].
Proof. vm_compute. reflexivity. Qed.

(** C5: for every base mapping (whatever the next [get_context_data] in
    line returns), the enriched context binds [kind_lost] and
    [kind_adoption] to query sets that both iterate to exactly what
    [get_kind_list] iterates to, and the two are distinct objects: each
    comes from its own call. *)
Theorem get_context_data_kind_listings
    (super : Context → Alloc Context) (kwargs : Context) (n : nat) :
  let ctx := (get_context_data super kwargs n).1 in
  ∃ q_lost q_adoption,
    ctx !! "kind_lost" = Some (VQuerySet q_lost)
    ∧ ctx !! "kind_adoption" = Some (VQuerySet q_adoption)
    ∧ (∀ db m, rows db q_lost = rows db (get_kind_list m).1)
    ∧ (∀ db m, rows db q_adoption = rows db (get_kind_list m).1)
    ∧ qs_oid q_lost ≠ qs_oid q_adoption.
Proof.
  intros ctx. subst ctx. rewrite get_context_data_run.
  destruct (super kwargs n) as [base n1]. simpl.
  eexists _, _. split.
  { rewrite lookup_insert_ne by done. apply lookup_insert_eq. }
  split; [apply lookup_insert_eq|].
  repeat split; simpl; lia.
Qed.

(** C10: every binding of the base mapping under a key other than
    [kind_lost] and [kind_adoption] is found unchanged in the enriched
    context, and under these two keys the enriched context holds a query
    set created after the base mapping was built, whatever the base
    mapping held there. *)
Theorem get_context_data_frame
    (super : Context → Alloc Context) (kwargs : Context) (n : nat) :
  let base := (super kwargs n).1 in
  let ctx := (get_context_data super kwargs n).1 in
  (∀ key, key ≠ "kind_lost" → key ≠ "kind_adoption" →
     ctx !! key = base !! key)
  ∧ (∀ key, key = "kind_lost" ∨ key = "kind_adoption" →
       ∃ q, ctx !! key = Some (VQuerySet q)
            ∧ ((super kwargs n).2 ≤ qs_oid q)%nat
            ∧ ∀ db m, rows db q = rows db (get_kind_list m).1).
Proof.
  intros base ctx. subst base ctx. rewrite get_context_data_run.
  destruct (super kwargs n) as [base n1]. simpl. split.
  - intros key Hlost Hadoption. by rewrite !lookup_insert_ne.
  - intros key [-> | ->]; eexists.
    + rewrite lookup_insert_ne by done. rewrite lookup_insert_eq.
      repeat split; simpl; lia.
    + rewrite lookup_insert_eq. repeat split; simpl; lia.
Qed.

(** A base mapping that already has a [kind_lost] entry: the entry is
    replaced by a new query set and the view's other entries stay. *)
Lemma get_context_data_frame_witness :
  let kwargs : Context :=
    {[ "kind_lost" := VStr "stale"; "pet" := VStr "Testing Cat" ]} in
  let ctx :=
    (get_context_data (ContextMixin_get_context_data "home") kwargs 0).1 in
  ctx !! "pet" = Some (VStr "Testing Cat")
  ∧ ctx !! "view" = Some (VView "home")
  ∧ ∃ q, ctx !! "kind_lost" = Some (VQuerySet q) ∧ (0 ≤ qs_oid q)%nat.
Proof.
  intros kwargs ctx. subst ctx.
  pose proof (get_context_data_frame
                (ContextMixin_get_context_data "home") kwargs 0) as H.
  cbv zeta in H. destruct H as [Hframe Hfresh].
  split; [|split].
  - rewrite (Hframe "pet") by done. reflexivity.
  - rewrite (Hframe "view") by done. reflexivity.
  - destruct (Hfresh "kind_lost") as (q & Hq & Hoid & _); [by left|].
    exists q. split; [exact Hq | exact Hoid].
Defined.

(** C9: [not_found] answers every request with the rendering of the
    template [staticpages/404.html], to which it passes no context of its
    own. *)
Theorem not_found_renders_404
    (render_to_string : string → option Context → HttpRequest → string)
    (request : HttpRequest) :
  not_found render_to_string request
  = render render_to_string request "staticpages/404.html" None None
  ∧ content (not_found render_to_string request)
    = render_to_string "staticpages/404.html" None request.
Proof. split; reflexivity. Qed.

End CommonSpec.



(** * Properties of the pet records *)

Module MeupetSpec.
Import Orm Meupet.

Create HintDb pets discriminated.

Lemma status_cases (s : Status) :
  s ∈ [MISSING; FOUND; FOR_ADOPTION; ADOPTED].
Proof. rewrite !elem_of_cons. destruct s; tauto. Qed.

#[export] Hint Resolve status_cases : pets.

Lemma lost_found_not_adoption (s : Status) :
  s ∈ [MISSING; FOUND] → s ≠ FOR_ADOPTION ∧ s ≠ ADOPTED.
Proof.
  rewrite !elem_of_cons, elem_of_nil. intros [-> | [-> | []]]; done.
Qed.

(** The scenario of [test_manager_lost_found]. *)
Example test_manager_lost_found :
  length ∘ get_lost_or_found 1 <$>
    and_create_pet "Test" None (Some FOR_ADOPTION)
      (and_create_pet "Test" None (Some FOUND)
        (and_create_pet "Test" None None
          (and_create_pet "Test" None None (Some setUp))))
  = Some 3.
Proof. vm_compute. reflexivity. Qed.

(** The scenario of [test_manager_adoption_adopted]. *)
Example test_manager_adoption_adopted :
  length ∘ get_for_adoption_adopted 1 <$>
    and_create_pet "Test" None (Some FOR_ADOPTION)
      (and_create_pet "Test" None (Some FOUND)
        (and_create_pet "Test" None None
          (and_create_pet "Test" None (Some ADOPTED) (Some setUp))))
  = Some 2.
Proof. vm_compute. reflexivity. Qed.

(** The count of [test_display_only_pets_from_kind]: Goat is kind 1 and
    Cat is kind 2. *)
Example test_display_only_pets_from_kind :
  (λ st, name <$> list_by_kind 2 st) <$>
    and_create_pet "Cat" (Some "Costela") None
      (and_create_pet "Cat" (Some "Cat") None
        (and_create_pet "Goat" (Some "Goat") None (Some setUp)))
  = Some ["Testing Cat"; "Testing Costela"].
Proof. vm_compute. reflexivity. Qed.

(** C2: [get_lost_or_found kindId] holds a record exactly when the record
    is stored with that kind and status MISSING or FOUND; it lists these
    records once each and in stored order, and none of them is
    FOR_ADOPTION or ADOPTED. *)
Theorem get_lost_or_found_exact (kindId : nat) (st : Store) :
  (∀ p, p ∈ get_lost_or_found kindId st
        ↔ p ∈ pets st ∧ pet_kind p = kindId
          ∧ (status p = MISSING ∨ status p = FOUND))
  ∧ get_lost_or_found kindId st `sublist_of` pets st
  ∧ Forall (λ p, status p ≠ FOR_ADOPTION ∧ status p ≠ ADOPTED)
           (get_lost_or_found kindId st).
Proof.
  unfold get_lost_or_found. split; [|split].
  - intros p. rewrite list_elem_of_filter, !elem_of_cons, elem_of_nil. tauto.
  - apply sublist_filter.
  - apply Forall_forall. intros p [[_ Hs] _]%list_elem_of_filter.
    by apply lost_found_not_adoption.
Qed.

(** C3: [get_for_adoption_adopted kindId] holds a record exactly when the
    record is stored with that kind and status FOR_ADOPTION or ADOPTED,
    once each and in stored order. *)
Theorem get_for_adoption_adopted_exact (kindId : nat) (st : Store) :
  (∀ p, p ∈ get_for_adoption_adopted kindId st
        ↔ p ∈ pets st ∧ pet_kind p = kindId
          ∧ (status p = FOR_ADOPTION ∨ status p = ADOPTED))
  ∧ get_for_adoption_adopted kindId st `sublist_of` pets st.
Proof.
  unfold get_for_adoption_adopted. split.
  - intros p. rewrite list_elem_of_filter, !elem_of_cons, elem_of_nil. tauto.
  - apply sublist_filter.
Qed.

(** *** Edit *)

Lemma edit_not_found petId requester f st :
  get_pet st petId = None → edit petId requester f st = inl PetNotFound.
Proof. intros Hget. unfold edit. by rewrite Hget. Qed.


(** C1: for a stored record, [edit] succeeds exactly for the owner; for
    anyone else the edit page, on GET and on POST alike, answers with a
    redirect to the detail page [/pet/{id}/] (not with an error page) and
    hands back the store as it was. *)
Theorem edit_owner_only (st : Store) (petId : nat) (p : Pet)
    (requester : OwnerProfile) (f : EditFields) :
  get_pet st petId = Some p →
  ((∃ st', edit petId requester f st = inr st')
   ↔ user_id requester = owner p)
  ∧ (user_id requester ≠ owner p →
     edit petId requester f st = inl AuthorizationError
     ∧ edit_view petId requester (EditPost f) st
       = (HttpRedirect ("/pet/" +:+ pretty petId +:+ "/"), st)
     ∧ edit_view petId requester EditGet st
       = (HttpRedirect ("/pet/" +:+ pretty petId +:+ "/"), st)).
Proof.
  intros Hget. unfold edit_view, edit, detail_url. rewrite Hget.
  destruct (decide (user_id requester = owner p)) as [Heq | Hne].
  - split; [|done]. split; [done | eauto].
  - split; [|done]. split; [|done]. by intros [st' ?].
Qed.

(** [test_only_owner_can_see_edit_page]: the pet belongs to [admin] and
    [Other User] asks for its edit page. *)
Lemma edit_owner_only_witness :
  let other := mkOwner 2 "Other User" false None in
  let st := mkStore [mkOwner 1 "admin" false None; other]
                    [mkKind 1 "Own Pet"]
                    [mkPet 1 "Testing Pet" "Bla" "test.png" 1 1 MISSING] in
  Some st = and_create_pet "Own Pet" None None
              (Some (create_user "Other User" setUp).2)
  ∧ edit_view 1 other EditGet st = (HttpRedirect "/pet/1/", st).
Proof.
  intros other st. split; [vm_compute; reflexivity|].
  refine (proj2 (proj2 (proj2
    (edit_owner_only st 1
       (mkPet 1 "Testing Pet" "Bla" "test.png" 1 1 MISSING) other
       (mkFields "" "" 1 (ExistingReference "")) _) _))).
  - reflexivity.
  - simpl. lia.
Defined.

(** [test_can_edit_pet] and [test_load_data_for_editing_pet]: the owner
    posts a new name and is sent to [/pet/1/], where the new name shows;
    the picture sent back as a reference stays. *)
Example test_can_edit_pet :
  (st ← and_create_pet "Own Pet" None None (Some setUp);
   admin ← head (users st);
   let '(response, st') :=
     edit_view 1 admin
       (EditPost (mkFields "Testing Fuzzy Boots" "My lovely cat" 1
                           (ExistingReference "/media/test.png"))) st in
   Some (response, get_pet st' 1))
  = Some (HttpRedirect "/pet/1/",
          Some (mkPet 1 "Testing Fuzzy Boots" "My lovely cat" "test.png"
                      1 1 MISSING)).
Proof. vm_compute. reflexivity. Qed.

Example test_load_data_for_editing_pet :
  (st ← and_create_pet "Own Pet" (Some "Own Pet") None (Some setUp);
   admin ← head (users st);
   match (edit_view 1 admin EditGet st).1 with
   | TemplateResponse t form => Some (t, form !! "name", form !! "description")
   | _ => None
   end)
  = Some ("meupet/edit.html", Some "Testing Own Pet", Some "Bla").
Proof. vm_compute. reflexivity. Qed.

(** *** Status *)




(** An edit between two creates leaves both statuses as asked for. *)
Example run_create_edit_create :
  let admin := mkOwner 1 "admin" false None in
  status <$> pets (run
    [OpCreate "Testing Cat" "Bla" "test.png" admin (mkKind 1 "Cat")
              (Some FOR_ADOPTION);
     OpEdit 1 admin (mkFields "Testing Fuzzy Boots" "My lovely cat" 1
                              (ExistingReference "/media/test.png"));
     OpCreate "Testing Goat" "Bla" "test.png" admin (mkKind 2 "Goat") None]
    empty_store)
  = [FOR_ADOPTION; MISSING].
Proof. vm_compute. reflexivity. Qed.

(** The helper of the tests leaves the status to its default. *)
Example create_pet_default_status :
  (λ ps, status ps.1) <$> create_pet "Cat" None None setUp = Some MISSING.
Proof. vm_compute. reflexivity. Qed.

(** *** Registration *)

Lemma resolve_page_path (pg : RegistrationPage) :
  resolve_registration (page_path pg) = Some pg.
Proof. by destruct pg. Qed.

(** C7: whoever submits it and to whichever of the two pages, a
    registration form that fails validation is answered with the
    registration form again, filled with exactly the submitted values, and
    the store is handed back as it was: no pet is persisted. *)
Theorem register_view_invalid_submission
    (clean : FormData → option NewPet) (pg : RegistrationPage)
    (user : OwnerProfile) (data : FormData) (st : Store) :
  clean data = None →
  ∃ form st',
    serve_registration clean (page_path pg) user (RegisterPost data) st
    = (TemplateResponse "meupet/register_pet.html" form, st')
    ∧ (∀ field, form !! field = data !! field)
    ∧ st' = st.
Proof.
  intros Hinvalid. exists data, st.
  unfold serve_registration. rewrite resolve_page_path.
  simpl. by rewrite Hinvalid.
Qed.

(** [test_incorrect_form_submission_reload_page_with_values]: [admin]
    posts a description and nothing else. *)
Lemma register_view_invalid_submission_witness :
  ∃ form,
    serve_registration required_fields_clean "/pet/lost/"
      (mkOwner 1 "admin" false None)
      (RegisterPost {[ "description" := "Test Description" ]}) setUp
    = (TemplateResponse "meupet/register_pet.html" form, setUp)
    ∧ form !! "description" = Some "Test Description".
Proof.
  destruct (register_view_invalid_submission required_fields_clean
              LostPage (mkOwner 1 "admin" false None)
              {[ "description" := "Test Description" ]} setUp)
    as (form & st' & Hview & Hform & ->); [reflexivity|].
  exists form. split; [exact Hview|].
  rewrite Hform. reflexivity.
Defined.




(** A complete form from a confirmed owner is registered, with the
    default status. *)
Example register_view_valid_submission :
  let st := confirm_information 1 setUp in
  (λ r, (r.1, status <$> pets r.2)) <$>
    (admin ← head (users st);
     Some (serve_registration required_fields_clean "/pet/lost/" admin
             (RegisterPost {[ "name" := "Rex"; "description" := "Lost dog";
                              "kind" := "Dog";
                              "profile_picture" := "rex.png" ]}) st))
  = Some (HttpRedirect "/pet/1/", [MISSING]).
Proof. vm_compute. reflexivity. Qed.

End MeupetSpec.

(** * Further properties of [common/views.py] *)

Module CommonMore.
Import Orm Common.

(** Rows whose images under [f] are pairwise distinct are told apart by
    [f]. *)
Lemma NoDup_fmap_elem_inj {A B} (f : A → B) (l : list A) (x y : A) :
  NoDup (f <$> l) → x ∈ l → y ∈ l → f x = f y → x = y.
Proof.
  induction l as [|a l IH]; simpl; [by intros _ ?%elem_of_nil|].
  rewrite NoDup_cons, !elem_of_cons.
  intros [Ha Hl] [-> | Hx] [-> | Hy] Hf; [done | | |by apply IH].
  - destruct Ha. rewrite Hf. by apply list_elem_of_fmap_2.
  - destruct Ha. rewrite <- Hf. by apply list_elem_of_fmap_2.
Qed.

(** X1: The listing of [get_kind_list] depends on which kinds are stored, not
    on the order they were stored in: two tables with the same rows, whose
    display names are pairwise distinct, are listed identically. *)
Theorem get_kind_list_insertion_order (db1 db2 : Table) (n m : nat) :
  db1 ≡ₚ db2 →
  NoDup (kind <$> db1) →
  rows db1 (get_kind_list n).1 = rows db2 (get_kind_list m).1.
Proof.
  intros Hperm Hnames. simpl. unfold rows. simpl.
  pose proof (merge_sort_Permutation (field_le F_kind) db1) as H1.
  pose proof (merge_sort_Permutation (field_le F_kind) db2) as H2.
  apply (StronglySorted_unique_strong (field_le F_kind)).
  - intros x1 x2 Hx1 Hx2 H12 H21.
    apply (NoDup_fmap_elem_inj kind db1); [done| | |].
    + by rewrite <- H1.
    + by rewrite Hperm, <- H2.
    + by apply (anti_symm String.le).
  - apply (StronglySorted_merge_sort (field_le F_kind)).
  - apply (StronglySorted_merge_sort (field_le F_kind)).
  - by rewrite H1, H2.
Qed.

Lemma get_kind_list_insertion_order_witness :
  rows [mkKind 1 "Goat"; mkKind 2 "Cat"; mkKind 3 "Dog"] (get_kind_list 0).1
  = rows [mkKind 3 "Dog"; mkKind 1 "Goat"; mkKind 2 "Cat"] (get_kind_list 7).1.
Proof.
  apply get_kind_list_insertion_order.
  - change [mkKind 1 "Goat"; mkKind 2 "Cat"; mkKind 3 "Dog"]
      with ([mkKind 1 "Goat"; mkKind 2 "Cat"] ++ [mkKind 3 "Dog"])%list.
    apply Permutation_app_comm.
  - apply (bool_decide_unpack _). vm_compute. exact I.
Defined.

(** X2: The enriched context has the keys of the base mapping and the two
    listing keys, no other: the mixin drops no entry of the view it is
    mixed into and adds at most two. *)
Theorem get_context_data_keys
    (super : Context → Alloc Context) (kwargs : Context) (n : nat) :
  dom (get_context_data super kwargs n).1
  = dom (super kwargs n).1 ∪ {[ "kind_lost"; "kind_adoption" ]}
  ∧ (size (super kwargs n).1 ≤ size (get_context_data super kwargs n).1
      ≤ size (super kwargs n).1 + 2)%nat.
Proof.
  rewrite CommonSpec.get_context_data_run.
  destruct (super kwargs n) as [base n1]. simpl.
  assert (dom (<["kind_adoption" :=
                   VQuerySet (mkQuerySet (S (S (S n1))) (Some F_kind))]>
                 (<["kind_lost" :=
                      VQuerySet (mkQuerySet (S n1) (Some F_kind))]> base))
          = dom base ∪ {[ "kind_lost"; "kind_adoption" ]}) as Hdom.
  { rewrite !dom_insert_L. set_solver. }
  split; [exact Hdom|].
  rewrite <- !size_dom, Hdom. split.
  - apply subseteq_size. set_solver.
  - rewrite size_union_alt.
    assert (size (({[ "kind_lost"; "kind_adoption" ]} : gset string)
                  ∖ dom base) ≤ 2)%nat; [|lia].
    etrans; [apply subseteq_size, subseteq_difference_l; reflexivity|].
    by vm_compute.
Qed.

End CommonMore.

(** * Further properties of the test fixtures and the pet records *)

Module MeupetMore.
Import Orm Meupet.

(** *** [get_or_create] and [create_pet] *)

Lemma create_eq nm descr image own k st_arg st :
  create nm descr image own k st_arg st
  = (mkPet (S (length (pets st))) nm descr image (user_id own) (kind_id k)
           (default MISSING st_arg),
     mkStore (users st) (kinds st)
       (pets st ++ [mkPet (S (length (pets st))) nm descr image
                          (user_id own) (kind_id k)
                          (default MISSING st_arg)])).
Proof. reflexivity. Qed.

Lemma find_snoc_fresh {A} (f : A → bool) (l : list A) (x : A) :
  List.find f l = None → f x = true → List.find f (l ++ [x]) = Some x.
Proof.
  induction l as [|a l IH]; simpl; [by intros _ ->|].
  destruct (f a); [done | exact IH].
Qed.

Lemma find_name_None (kname : string) (l : list Kind) :
  List.find (λ k, bool_decide (kind k = kname)) l = None →
  kname ∉ kind <$> l.
Proof.
  intros Hfind [k [-> Hk]]%list_elem_of_fmap_1.
  apply list_elem_of_In in Hk.
  pose proof (find_none _ _ Hfind k Hk) as Hf. simpl in Hf.
  by apply bool_decide_eq_false in Hf.
Qed.

(** What [get_or_create] returns and leaves behind: the first kind of
    that name, found or appended with the next identifier. *)
Lemma get_or_create_inv (kname : string) (st st' : Store) (k : Kind) :
  get_or_create kname st = (k, st') →
  kind k = kname
  ∧ users st' = users st ∧ pets st' = pets st
  ∧ List.find (λ k, bool_decide (kind k = kname)) (kinds st') = Some k
  ∧ ((kinds st' = kinds st ∧ k ∈ kinds st)
     ∨ (kinds st' = (kinds st ++ [k])%list
        ∧ kind_id k = S (length (kinds st))
        ∧ kname ∉ kind <$> kinds st)).
Proof.
  unfold get_or_create.
  destruct (List.find _ (kinds st)) as [k0|] eqn:Hfind; intros [= <- <-].
  - destruct (find_some _ _ Hfind) as [Hin Hname]. simpl in Hname.
    apply bool_decide_eq_true in Hname. apply list_elem_of_In in Hin.
    repeat split; auto.
  - simpl. repeat split; auto.
    + apply find_snoc_fresh; [done|]. simpl. by apply bool_decide_eq_true.
    + right. repeat split; auto. by apply find_name_None.
Qed.

(** Asking for the same name again finds the same kind and adds nothing. *)
Lemma get_or_create_again (kname : string) (st st' : Store) (k : Kind) :
  get_or_create kname st = (k, st') → get_or_create kname st' = (k, st').
Proof.
  intros (_ & _ & _ & Hfind & _)%get_or_create_inv.
  unfold get_or_create. by rewrite Hfind.
Qed.

Lemma create_pet_inv kname nm st_arg st p st' :
  create_pet kname nm st_arg st = Some (p, st') →
  ∃ user k st1,
    head (users st) = Some user
    ∧ get_or_create kname st = (k, st1)
    ∧ p = mkPet (S (length (pets st))) ("Testing " +:+ default "Pet" nm)
                "Bla" "test.png" (user_id user) (kind_id k)
                (default MISSING st_arg)
    ∧ st' = mkStore (users st) (kinds st1) (pets st ++ [p]).
Proof.
  unfold create_pet. destruct (head (users st)) as [user|]; [|done]. simpl.
  destruct (get_or_create kname st) as [k st1] eqn:Hk.
  destruct (get_or_create_inv _ _ _ _ Hk) as (_ & Hu & Hp & _).
  rewrite create_eq, Hu, Hp. intros [= <- <-]. by exists user, k, st1.
Qed.

Lemma create_pet_is_Some kname nm st_arg st :
  users st ≠ [] → is_Some (create_pet kname nm st_arg st).
Proof.
  unfold create_pet. destruct (users st) as [|user us]; [done|]. simpl.
  intros _. by destruct (get_or_create kname st).
Qed.

Lemma get_or_create_found (kname : string) (st : Store) (k : Kind) :
  List.find (λ k, bool_decide (kind k = kname)) (kinds st) = Some k →
  get_or_create kname st = (k, st).
Proof. intros Hfind. unfold get_or_create. by rewrite Hfind. Qed.

(** X3: Two [create_pet] calls in a row under one kind name: the second never
    fails, adds no kind and files its pet under the kind of the first, as
    [test_display_only_pets_from_kind] relies on for its two cats. *)
Theorem create_pet_same_kind (kname : string) (nm1 nm2 : option string)
    (sa1 sa2 : option Status) (st st1 : Store) (p1 : Pet) :
  create_pet kname nm1 sa1 st = Some (p1, st1) →
  ∃ p2 st2,
    create_pet kname nm2 sa2 st1 = Some (p2, st2)
    ∧ pet_kind p2 = pet_kind p1
    ∧ kinds st2 = kinds st1
    ∧ pets st2 = (pets st ++ [p1; p2])%list.
Proof.
  intros (user & k & s1 & Huser & Hk & -> & ->)%create_pet_inv.
  destruct (get_or_create_inv _ _ _ _ Hk) as (_ & _ & _ & Hfind & _).
  unfold create_pet at 1. simpl.
  destruct (users st) as [|u us]; [done|]. simpl in *. injection Huser as ->.
  erewrite get_or_create_found by exact Hfind.
  rewrite create_eq. simpl. eexists _, _. split; [reflexivity|].
  simpl. by rewrite <- app_assoc.
Qed.

Lemma create_pet_same_kind_witness :
  ∃ p2 st2,
    create_pet "Cat" (Some "Costela") None
      (mkStore [mkOwner 1 "admin" false None] [mkKind 1 "Cat"]
         [mkPet 1 "Testing Cat" "Bla" "test.png" 1 1 MISSING])
    = Some (p2, st2)
    ∧ pet_kind p2 = 1 ∧ kinds st2 = [mkKind 1 "Cat"].
Proof.
  destruct (create_pet_same_kind "Cat" (Some "Cat") (Some "Costela")
              None None setUp
              (mkStore [mkOwner 1 "admin" false None] [mkKind 1 "Cat"]
                 [mkPet 1 "Testing Cat" "Bla" "test.png" 1 1 MISSING])
              (mkPet 1 "Testing Cat" "Bla" "test.png" 1 1 MISSING))
    as (p2 & st2 & Hcall & Hkind & Hkinds & _); [reflexivity|].
  exists p2, st2. auto.
Defined.

(** *** Stores that only grow *)

Lemma seq_snoc (a n : nat) : seq a (S n) = (seq a n ++ [a + n])%list.
Proof. by rewrite seq_S. Qed.

Lemma create_pet_well_formed kname nm st_arg st p st' :
  well_formed st →
  create_pet kname nm st_arg st = Some (p, st') →
  well_formed st'.
Proof.
  intros (Husers & Hids & Hnames & Hpets).
  intros (user & k & s1 & Huser & Hk & -> & ->)%create_pet_inv.
  destruct (get_or_create_inv _ _ _ _ Hk)
    as (Hname & _ & _ & _ & [[-> _] | (-> & Hid & Hfresh)]);
    (split; [done|]); simpl.
  - split; [done|]. split; [done|].
    rewrite fmap_app, length_app, Nat.add_1_r, seq_snoc, Hpets. done.
  - split; [|split].
    + rewrite fmap_app, length_app, Nat.add_1_r, seq_snoc, Hids. simpl.
      by rewrite Hid.
    + rewrite fmap_app. simpl. apply NoDup_app. split; [done|].
      split; [|apply NoDup_singleton].
      intros x Hx ->%list_elem_of_singleton. by rewrite Hname in Hx.
    + rewrite fmap_app, length_app, Nat.add_1_r, seq_snoc, Hpets. done.
Qed.

Lemma setUp_well_formed : well_formed setUp.
Proof. repeat split; simpl; [done | apply NoDup_nil_2]. Qed.

Lemma create_pet_kind_row kname nm st_arg st p st' :
  create_pet kname nm st_arg st = Some (p, st') →
  ∃ k, k ∈ kinds st' ∧ kind k = kname ∧ kind_id k = pet_kind p
       ∧ kinds st ⊆ kinds st'.
Proof.
  intros (user & k & s1 & _ & Hk & -> & ->)%create_pet_inv.
  destruct (get_or_create_inv _ _ _ _ Hk)
    as (Hname & _ & _ & Hfind & Hkinds).
  exists k. simpl. split; [|split; [done|split; [done|]]].
  - apply list_elem_of_In. by destruct (find_some _ _ Hfind).
  - destruct Hkinds as [[-> _] | (-> & _)]; [done|].
    intros x Hx. apply elem_of_app. by left.
Qed.

(** X4: In a well-formed store, two [create_pet] calls in a row file their
    pets under the same kind exactly when they name the same kind. *)
Theorem create_pet_kind_iff (k1 k2 : string) (nm1 nm2 : option string)
    (sa1 sa2 : option Status) (st st1 st2 : Store) (p1 p2 : Pet) :
  well_formed st →
  create_pet k1 nm1 sa1 st = Some (p1, st1) →
  create_pet k2 nm2 sa2 st1 = Some (p2, st2) →
  pet_kind p1 = pet_kind p2 ↔ k1 = k2.
Proof.
  intros Hwf H1 H2.
  pose proof (create_pet_well_formed _ _ _ _ _ _ Hwf H1) as Hwf1.
  destruct (create_pet_well_formed _ _ _ _ _ _ Hwf1 H2)
    as (_ & Hids & _ & _).
  destruct (create_pet_kind_row _ _ _ _ _ _ H1) as (ka & Hka & Hna & Hia & _).
  destruct (create_pet_kind_row _ _ _ _ _ _ H2)
    as (kb & Hkb & Hnb & Hib & Hsub).
  split.
  - intros Heq. rewrite <- Hna, <- Hnb. f_equal.
    apply (CommonMore.NoDup_fmap_elem_inj kind_id (kinds st2));
      [rewrite Hids; apply NoDup_seq | by apply Hsub | done | congruence].
  - intros <-.
    destruct (create_pet_inv _ _ _ _ _ _ H1)
      as (user & k & s1 & Huser & Hk & -> & ->).
    destruct (get_or_create_inv _ _ _ _ Hk) as (_ & _ & _ & Hfind & _).
    unfold create_pet in H2. simpl in H2.
    destruct (users st) as [|u us]; [done|]. simpl in H2.
    erewrite get_or_create_found in H2 by exact Hfind.
    by injection H2 as <- _.
Qed.

(** Goat first, then Cat: two kinds; Cat again: the same kind. *)
Lemma create_pet_kind_iff_witness :
  let goat := mkPet 1 "Testing Goat" "Bla" "test.png" 1 1 MISSING in
  let cat := mkPet 2 "Testing Cat" "Bla" "test.png" 1 2 MISSING in
  pet_kind goat = pet_kind cat ↔ "Goat" = "Cat".
Proof.
  intros goat cat.
  apply (create_pet_kind_iff "Goat" "Cat" (Some "Goat") (Some "Cat")
           None None setUp
           (mkStore [mkOwner 1 "admin" false None] [mkKind 1 "Goat"] [goat])
           (mkStore [mkOwner 1 "admin" false None]
                    [mkKind 1 "Goat"; mkKind 2 "Cat"] [goat; cat])).
  - repeat split; simpl; [done | apply NoDup_nil_2].
  - reflexivity.
  - reflexivity.
Defined.

(** *** A test body's sequence of [create_pet] calls *)

Lemma create_pets_cons (c : PetCall) (calls : list PetCall) (st : Store) :
  create_pets (c :: calls) st
  = match create_pet (c_kind c) (c_name c) (c_status c) st with
    | Some (_, st1) => create_pets calls st1
    | None => None
    end.
Proof.
  unfold create_pets. simpl.
  destruct (create_pet _ _ _ st) as [[p st1]|]; simpl; [done|].
  induction calls as [|c' calls IH]; [done | exact IH].
Qed.

Lemma create_pets_grow (calls : list PetCall) (st : Store) (u : OwnerProfile) :
  well_formed st →
  head (users st) = Some u →
  ∃ st',
    create_pets calls st = Some st'
    ∧ well_formed st'
    ∧ users st' = users st
    ∧ name <$> pets st'
      = ((name <$> pets st)
         ++ ((λ c, "Testing " +:+ default "Pet" (c_name c)) <$> calls))%list
    ∧ status <$> pets st'
      = ((status <$> pets st)
         ++ ((λ c, default MISSING (c_status c)) <$> calls))%list
    ∧ owner <$> pets st'
      = ((owner <$> pets st) ++ replicate (length calls) (user_id u))%list.
Proof.
  revert st. induction calls as [|c calls IH]; intros st Hwf Hu.
  - exists st. simpl. rewrite !app_nil_r.
    repeat (split; [done|]). done.
  - rewrite create_pets_cons.
    destruct (create_pet_is_Some (c_kind c) (c_name c) (c_status c) st)
      as [[p st1] H1]; [by destruct Hwf|].
    rewrite H1.
    pose proof (create_pet_well_formed _ _ _ _ _ _ Hwf H1) as Hwf1.
    destruct (create_pet_inv _ _ _ _ _ _ H1)
      as (user & k & s1 & Huser & _ & Hp & Hst1).
    assert (user = u) as -> by congruence.
    destruct (IH st1) as (st' & Hrun & Hwf' & Husers & Hn & Hs & Ho);
      [done | by rewrite Hst1 |].
    exists st'. rewrite Hrun, Husers, Hn, Hs, Ho, Hst1. simpl.
    rewrite !fmap_app, <- !app_assoc, Hp. simpl.
    repeat (split; [done|]). done.
Qed.

(** X5: After [setUp], a test body's [create_pet] calls never fail, whatever
    their number and arguments: the pets get the identifiers 1, 2, ... in
    call order, each named ["Testing "] followed by the given name (or
    [Pet]), with the given status (or MISSING), all owned by [admin]. *)
Theorem create_pets_after_setUp (calls : list PetCall) :
  ∃ st,
    create_pets calls setUp = Some st
    ∧ users st = users setUp
    ∧ pet_id <$> pets st = seq 1 (length calls)
    ∧ name <$> pets st
      = (λ c, "Testing " +:+ default "Pet" (c_name c)) <$> calls
    ∧ status <$> pets st = (λ c, default MISSING (c_status c)) <$> calls
    ∧ owner <$> pets st = replicate (length calls) 1.
Proof.
  destruct (create_pets_grow calls setUp (mkOwner 1 "admin" false None))
    as (st & Hrun & Hwf & Husers & Hn & Hs & Ho);
    [apply setUp_well_formed | done |].
  exists st. simpl in *. repeat split; try done.
  destruct Hwf as (_ & _ & _ & Hids). rewrite Hids. f_equal.
  rewrite <- (length_fmap name), Hn. by rewrite length_fmap.
Qed.

(** *** Identifiers and lookups *)

Lemma find_by_rank (l : list Pet) (a j : nat) :
  pet_id <$> l = seq a (length l) →
  List.find (λ p, bool_decide (pet_id p = a + j)) l = l !! j.
Proof.
  revert a j. induction l as [|x l IH]; intros a j; [done|].
  simpl. intros [= Hx Hl]. destruct j as [|j].
  - rewrite Nat.add_0_r, bool_decide_eq_true_2 by done. done.
  - rewrite bool_decide_eq_false_2 by lia. simpl.
    rewrite <- Nat.add_succ_comm. by apply IH.
Qed.

Lemma find_below_rank (l : list Pet) (a i : nat) :
  pet_id <$> l = seq a (length l) → i < a →
  List.find (λ p, bool_decide (pet_id p = i)) l = None.
Proof.
  revert a. induction l as [|x l IH]; intros a; [done|].
  simpl. intros [= Hx Hl] Hi.
  rewrite bool_decide_eq_false_2 by lia. apply (IH (S a)); [done | lia].
Qed.

(** X6: In a well-formed store a pet is found under its creation rank:
    identifier [n] is the [n]-th pet created, and identifier 0 or one
    beyond the number of pets resolves to nothing. *)
Theorem get_pet_by_rank (st : Store) :
  well_formed st →
  get_pet st 0 = None
  ∧ (∀ i, get_pet st (S i) = pets st !! i)
  ∧ (∀ i, length (pets st) < i → get_pet st i = None).
Proof.
  intros (_ & _ & _ & Hids). unfold get_pet. split; [|split].
  - apply (find_below_rank _ 1); [done | lia].
  - intros i. by apply (find_by_rank _ 1 i).
  - intros [|i] Hi; [lia|].
    rewrite (find_by_rank _ 1 i) by done. apply lookup_ge_None. lia.
Qed.

Lemma get_pet_by_rank_witness :
  let goat := mkPet 1 "Testing Goat" "Bla" "test.png" 1 1 MISSING in
  let cat := mkPet 2 "Testing Cat" "Bla" "test.png" 1 2 MISSING in
  let st := mkStore [mkOwner 1 "admin" false None]
                    [mkKind 1 "Goat"; mkKind 2 "Cat"] [goat; cat] in
  get_pet st 0 = None ∧ get_pet st 2 = Some cat ∧ get_pet st 3 = None.
Proof.
  intros goat cat st.
  destruct (get_pet_by_rank st) as (H0 & Hrank & Hbeyond).
  - repeat split; simpl; [done|].
    apply (bool_decide_unpack _). vm_compute. exact I.
  - split; [exact H0|]. split; [exact (Hrank 1)|].
    apply Hbeyond. simpl. lia.
Defined.

(** *** The two listings *)

Lemma status_lost_or_adoption (s : Status) :
  (s ∈ [MISSING; FOUND] ∧ (s ∉ [FOR_ADOPTION; ADOPTED]))
  ∨ ((s ∉ [MISSING; FOUND]) ∧ s ∈ [FOR_ADOPTION; ADOPTED]).
Proof.
  rewrite !elem_of_cons, !elem_of_nil.
  destruct s; [left | left | right | right]; split; try tauto;
    intros [? | [? | []]]; done.
Qed.

(** X7: The lost-or-found listing and the adoption listing of a kind split
    the records of that kind between them: each record of the kind is in
    exactly one of the two, so the two lengths add up to the number of
    records of the kind. *)
Theorem listings_partition (kindId : nat) (st : Store) :
  length (get_lost_or_found kindId st)
  + length (get_for_adoption_adopted kindId st)
  = length (list_by_kind kindId st)
  ∧ (∀ p, p ∈ list_by_kind kindId st
          ↔ p ∈ get_lost_or_found kindId st
            ∨ p ∈ get_for_adoption_adopted kindId st)
  ∧ Forall (λ p, p ∉ get_for_adoption_adopted kindId st)
           (get_lost_or_found kindId st).
Proof.
  unfold get_lost_or_found, get_for_adoption_adopted, list_by_kind.
  split; [|split].
  - induction (pets st) as [|p l IH]; [done|].
    rewrite !filter_cons.
    destruct (status_lost_or_adoption (status p)) as [[Hl Ha] | [Hl Ha]];
      repeat case_decide; simpl; try lia; tauto.
  - intros p. rewrite !list_elem_of_filter.
    destruct (status_lost_or_adoption (status p)); tauto.
  - apply Forall_forall. intros p. rewrite !list_elem_of_filter.
    destruct (status_lost_or_adoption (status p)); tauto.
Qed.

(** X8: A [create_pet] call appends its pet to one listing of its own kind,
    the lost-or-found one unless the status asked for is FOR_ADOPTION or
    ADOPTED, and changes no other listing. *)
Theorem create_pet_listings (kname : string) (nm : option string)
    (st_arg : option Status) (st st' : Store) (p : Pet) :
  create_pet kname nm st_arg st = Some (p, st') →
  status p = default MISSING st_arg
  ∧ ∀ kindId,
      get_lost_or_found kindId st'
      = (get_lost_or_found kindId st
         ++ (if decide (kindId = pet_kind p ∧ status p ∈ [MISSING; FOUND])
             then [p] else []))%list
      ∧ get_for_adoption_adopted kindId st'
        = (get_for_adoption_adopted kindId st
           ++ (if decide (kindId = pet_kind p
                          ∧ status p ∈ [FOR_ADOPTION; ADOPTED])
               then [p] else []))%list.
Proof.
  intros (user & k & s1 & _ & _ & Hp & ->)%create_pet_inv.
  split; [by rewrite Hp|]. intros kindId.
  unfold get_lost_or_found, get_for_adoption_adopted. simpl.
  rewrite !filter_app, !filter_cons, !filter_nil.
  split; f_equal; repeat case_decide; try done;
    clear Hp; exfalso; intuition (auto; congruence).
Qed.

(** The fourth call of [test_manager_lost_found] asks for FOR_ADOPTION:
    the lost-or-found listing stays at three. *)
Lemma create_pet_listings_witness :
  let st := mkStore [mkOwner 1 "admin" false None] [mkKind 1 "Test"]
              [mkPet 1 "Testing Pet" "Bla" "test.png" 1 1 MISSING;
               mkPet 2 "Testing Pet" "Bla" "test.png" 1 1 MISSING;
               mkPet 3 "Testing Pet" "Bla" "test.png" 1 1 FOUND] in
  let p := mkPet 4 "Testing Pet" "Bla" "test.png" 1 1 FOR_ADOPTION in
  let st' := mkStore (users st) (kinds st) (pets st ++ [p]) in
  get_lost_or_found 1 st' = get_lost_or_found 1 st
  ∧ get_for_adoption_adopted 1 st' = [p].
Proof.
  intros st p st'.
  destruct (create_pet_listings "Test" None (Some FOR_ADOPTION) st st' p)
    as [_ Hlist]; [reflexivity|].
  destruct (Hlist 1) as [Hlost Hadoption]. split.
  - rewrite Hlost. vm_compute. reflexivity.
  - rewrite Hadoption. vm_compute. reflexivity.
Defined.

(** *** Edits *)

Lemma find_fmap_same_id (g : Pet → Pet) (j : nat) (l : list Pet) :
  (∀ q, pet_id (g q) = pet_id q) →
  List.find (λ q, bool_decide (pet_id q = j)) (g <$> l)
  = g <$> List.find (λ q, bool_decide (pet_id q = j)) l.
Proof.
  intros Hid. induction l as [|x l IH]; [done|]. simpl.
  rewrite Hid. by destruct (bool_decide (pet_id x = j)).
Qed.

Lemma get_pet_id (st : Store) (j : nat) (q : Pet) :
  get_pet st j = Some q → pet_id q = j.
Proof.
  intros [_ Hq]%find_some. simpl in Hq. by apply bool_decide_eq_true in Hq.
Qed.

Lemma edit_inr_inv petId requester f st st' :
  edit petId requester f st = inr st' →
  ∃ p, get_pet st petId = Some p
       ∧ user_id requester = owner p
       ∧ st' = mkStore (users st) (kinds st)
                 ((λ q, if decide (pet_id q = petId)
                        then apply_fields f q else q) <$> pets st).
Proof.
  unfold edit. destruct (get_pet st petId) as [p|]; [|done].
  case_decide; [|done]. intros [= <-]. by exists p.
Qed.

Lemma get_pet_after_edit petId requester f st st' j :
  edit petId requester f st = inr st' →
  get_pet st' j
  = (λ q, if decide (j = petId) then apply_fields f q else q)
      <$> get_pet st j.
Proof.
  intros (p & _ & _ & ->)%edit_inr_inv. unfold get_pet at 1. simpl.
  rewrite find_fmap_same_id by (intros q; by case_decide).
  fold (get_pet st j). destruct (get_pet st j) as [q|] eqn:Hq; [|done].
  simpl. apply get_pet_id in Hq. rewrite Hq. by repeat case_decide.
Qed.

(** X9: The owner's edit, then a lookup: the record under the edited
    identifier has the submitted name, description and kind, the uploaded
    picture (or its old one when the existing reference was sent back, as
    in [test_can_edit_pet]) and its old identifier, owner and status;
    every other identifier resolves as before, and no record, user or kind
    is added or removed. *)
Theorem edit_then_get_pet (st : Store) (petId : nat) (p : Pet)
    (requester : OwnerProfile) (f : EditFields) :
  get_pet st petId = Some p →
  user_id requester = owner p →
  ∃ st' p',
    edit petId requester f st = inr st'
    ∧ get_pet st' petId = Some p'
    ∧ name p' = f_name f
    ∧ description p' = f_description f
    ∧ pet_kind p' = f_kind f
    ∧ profile_picture p'
      = match f_image f with
        | NewUpload file => file
        | ExistingReference _ => profile_picture p
        end
    ∧ pet_id p' = petId ∧ owner p' = owner p ∧ status p' = status p
    ∧ (∀ j, j ≠ petId → get_pet st' j = get_pet st j)
    ∧ length (pets st') = length (pets st)
    ∧ users st' = users st ∧ kinds st' = kinds st.
Proof.
  intros Hget Howner.
  assert (∃ st', edit petId requester f st = inr st') as [st' Hedit].
  { unfold edit. rewrite Hget. rewrite decide_True by done. eauto. }
  exists st', (apply_fields f p). split; [done|]. split.
  { rewrite (get_pet_after_edit _ _ _ _ _ _ Hedit), Hget. simpl.
    by rewrite decide_True. }
  do 4 (split; [reflexivity|]).
  split; [exact (get_pet_id _ _ _ Hget)|].
  do 2 (split; [reflexivity|]). split; [|split].
  - intros j Hj. rewrite (get_pet_after_edit _ _ _ _ _ _ Hedit).
    destruct (get_pet st j) as [q|]; [|done]. simpl.
    by rewrite decide_False.
  - destruct (edit_inr_inv _ _ _ _ _ Hedit) as (_ & _ & _ & ->). simpl.
    by rewrite length_fmap.
  - by destruct (edit_inr_inv _ _ _ _ _ Hedit) as (_ & _ & _ & ->).
Qed.

(** [test_can_edit_pet] on a store with a second pet: pet 1 is renamed,
    pet 2 is as it was. *)
Lemma edit_then_get_pet_witness :
  let admin := mkOwner 1 "admin" false None in
  let own := mkPet 1 "Testing Pet" "Bla" "test.png" 1 1 MISSING in
  let second := mkPet 2 "Testing Second Pet" "Bla" "test.png" 1 2 FOUND in
  let st := mkStore [admin] [mkKind 1 "Own Pet"; mkKind 2 "Second Pet"]
                    [own; second] in
  ∃ st' p',
    edit 1 admin (mkFields "Testing Fuzzy Boots" "My lovely cat" 1
                           (ExistingReference "/media/test.png")) st
    = inr st'
    ∧ get_pet st' 1 = Some p'
    ∧ name p' = "Testing Fuzzy Boots"
    ∧ description p' = "My lovely cat"
    ∧ profile_picture p' = "test.png"
    ∧ get_pet st' 2 = Some second.
Proof.
  intros admin own second st.
  destruct (edit_then_get_pet st 1 own admin
              (mkFields "Testing Fuzzy Boots" "My lovely cat" 1
                        (ExistingReference "/media/test.png")))
    as (st' & p' & Hedit & Hget & Hname & Hdescr & _ & Hpic & _ & _ & _
        & Hother & _); [reflexivity | reflexivity |].
  exists st', p'. repeat (split; [assumption|]).
  rewrite (Hother 2) by lia. reflexivity.
Defined.

Lemma edit_succeeds_iff petId requester f st :
  (∃ st', edit petId requester f st = inr st')
  ↔ ∃ p, get_pet st petId = Some p ∧ user_id requester = owner p.
Proof.
  split.
  - intros [st' (p & Hp & Ho & _)%edit_inr_inv]. eauto.
  - intros (p & Hp & Ho). unfold edit. rewrite Hp, decide_True by done.
    eauto.
Qed.

(** X10: An edit cannot be used to take over a record or to lock its owner
    out: after any successful edit, every user may edit exactly the
    records that user could edit before. *)
Theorem edit_keeps_permissions (petId : nat) (requester : OwnerProfile)
    (f : EditFields) (st st' : Store) :
  edit petId requester f st = inr st' →
  ∀ (j : nat) (r : OwnerProfile) (g : EditFields),
    (∃ s, edit j r g st' = inr s) ↔ (∃ s, edit j r g st = inr s).
Proof.
  intros Hedit j r g. rewrite !edit_succeeds_iff.
  rewrite (get_pet_after_edit _ _ _ _ _ _ Hedit).
  destruct (get_pet st j) as [q|]; simpl; [|naive_solver].
  split.
  - intros (p & [= <-] & Ho). exists q. split; [done|].
    by destruct (decide (j = petId)).
  - intros (p & [= <-] & Ho). eexists. split; [done|].
    by destruct (decide (j = petId)).
Qed.

(** After [admin] edits pet 1, [Other User] still gets nowhere with it and
    [admin] can edit it again. *)
Lemma edit_keeps_permissions_witness :
  let admin := mkOwner 1 "admin" false None in
  let other := mkOwner 2 "Other User" false None in
  let f := mkFields "Testing Fuzzy Boots" "My lovely cat" 1
                    (ExistingReference "/media/test.png") in
  let st := mkStore [admin; other] [mkKind 1 "Own Pet"]
              [mkPet 1 "Testing Pet" "Bla" "test.png" 1 1 MISSING] in
  let st' := mkStore [admin; other] [mkKind 1 "Own Pet"]
               [mkPet 1 "Testing Fuzzy Boots" "My lovely cat" "test.png"
                      1 1 MISSING] in
  ¬ (∃ s, edit 1 other f st' = inr s) ∧ (∃ s, edit 1 admin f st' = inr s).
Proof.
  intros admin other f st st'.
  pose proof (edit_keeps_permissions 1 admin f st st' eq_refl) as Hkeep.
  split.
  - intros Hother. apply (Hkeep 1 other f) in Hother.
    destruct Hother as [s Hs]. discriminate Hs.
  - apply (Hkeep 1 admin f). eexists. reflexivity.
Defined.

End MeupetMore.
